(** * AI Todo: a shallow embedding of [src/App.tsx]

    The application is one React component holding four pieces of state
    (the task list, the text of the input box, the view filter and the
    theme) and a handful of event handlers that replace the task list by
    a [map], a [filter] or a spread of the previous one.  The development
    below transcribes the two start-up loaders and the handlers as Rocq
    functions and then proves the behavioural contract of the store. *)

From Stdlib Require Import ZArith NArith List Bool Ascii String Lia.
From stdpp Require Import base option list gmap pretty.

Import ListNotations.
Set Warnings "-register-all".
Local Open Scope N_scope.

(** ** JavaScript strings

    A JavaScript string is a finite sequence of 16-bit code units;
    [===] on strings compares those sequences.  [trim] removes the
    code points of the ECMAScript productions [WhiteSpace] and
    [LineTerminator] from both ends; they all lie in the basic
    multilingual plane, so each is a single code unit. *)
Module Js.

Definition jsstring : Type := list N.

(** Code units of an ASCII literal of the source text. *)
Definition lit (s : string) : jsstring :=
  List.map N_of_ascii (list_ascii_of_string s).

(** [WhiteSpace]: TAB, VT, FF, ZWNBSP and the Unicode category Zs. *)
Definition is_white_space (c : N) : bool :=
  (c =? 0x0009) || (c =? 0x000B) || (c =? 0x000C) || (c =? 0xFEFF)
  || (c =? 0x0020) || (c =? 0x00A0) || (c =? 0x1680)
  || ((0x2000 <=? c) && (c <=? 0x200A))
  || (c =? 0x202F) || (c =? 0x205F) || (c =? 0x3000).

(** [LineTerminator]: LF, CR, LS, PS. *)
Definition is_line_terminator (c : N) : bool :=
  (c =? 0x000A) || (c =? 0x000D) || (c =? 0x2028) || (c =? 0x2029).

Definition is_trimmed_char (c : N) : bool :=
  is_white_space c || is_line_terminator c.

Fixpoint trimStart (s : jsstring) : jsstring :=
  match s with
  | c :: s' => if is_trimmed_char c then trimStart s' else s
  | [] => []
  end.

Definition trimEnd (s : jsstring) : jsstring :=
  List.rev (trimStart (List.rev s)).

(** [String.prototype.trim]. *)
Definition trim (s : jsstring) : jsstring := trimEnd (trimStart s).

(** Truthiness of a string: only the empty string is falsy. *)
Definition truthy (s : jsstring) : bool :=
  match s with [] => false | _ :: _ => true end.

(** Values that [JSON.parse] can produce.  Numbers are kept as
    integers: the time stamps the application stores are integral and
    nothing below looks inside a number. *)
Inductive value : Type :=
  | VNull
  | VBool (b : bool)
  | VNum (n : Z)
  | VStr (s : jsstring)
  | VArr (items : list value)
  | VObj (fields : list (jsstring * value)).

(** [Array.isArray]. *)
Definition isArray (v : value) : bool :=
  match v with VArr _ => true | _ => false end.

(** Lookup in a list of key and value pairs, first match. *)
Fixpoint assoc {V} (k : jsstring) (kvs : list (jsstring * V)) : option V :=
  match kvs with
  | [] => None
  | (k', v) :: kvs' => if decide (k' = k) then Some v else assoc k kvs'
  end.

(** Own property lookup on an object; the objects [JSON.parse] builds
    have no repeated key. *)
Definition field (k : jsstring) (fs : list (jsstring * value)) : option value :=
  assoc k fs.

(** ** Completions

    A call either returns a value or throws. *)
Inductive exn : Type := Thrown (name : jsstring).

Inductive completion (A : Type) : Type :=
  | Normal (a : A)
  | Throw (e : exn).
Arguments Normal {A} a.
Arguments Throw {A} e.

Definition bind {A B} (c : completion A) (k : A → completion B) : completion B :=
  match c with
  | Normal a => k a
  | Throw e => Throw e
  end.

(** [try { body } catch { handler }] with a handler that ignores the
    exception value. *)
Definition try_catch {A} (body : completion A) (handler : completion A) : completion A :=
  match body with
  | Normal a => Normal a
  | Throw _ => handler
  end.

End Js.

Notation "'let!' x ':=' c 'in' k" := (Js.bind c (fun x => k))
  (at level 10, x name, c at level 100, k at level 200).

Import Js.

(** ** The host environment

    What the browser provides to the module: the [window] object (absent
    when the module is evaluated outside a browser), its [localStorage]
    and optional [matchMedia], and the global [JSON.parse]. *)
Record Window : Type := {
  (** [window.localStorage.getItem(key)]: [null] is [None]; reading the
      storage may throw when access to it is denied. *)
  localStorage_getItem : jsstring → completion (option jsstring);
  (** [window.matchMedia]: [None] when the host does not define it,
      otherwise the [matches] flag of the list the query returns. *)
  matchMedia : option (jsstring → bool)
}.

Record Host : Type := {
  window : option Window;
  (** [JSON.parse(text)]: throws a [SyntaxError] on malformed text. *)
  JSON_parse : jsstring → completion value
}.

(** ** Data model *)

Record Todo : Type := mkTodo {
  id : jsstring;
  text : jsstring;
  done : bool;
  createdAt : Z
}.

Inductive Theme : Type := dark | light.

Inductive Filter : Type := all | active | completed.

Definition STORAGE_KEY : jsstring := lit "ai-todo-items-v1".
Definition THEME_KEY : jsstring := lit "ai-todo-theme".

(** ** Start-up loaders *)

(** [loadInitialTodos] returns the parsed array as it is: its declared
    type is [Todo[]], but the elements are whatever [JSON.parse] built. *)
Definition loadInitialTodos (h : Host) : completion (list value) :=
  match window h with
  | None => Normal []
  | Some w =>
      try_catch
        (let! raw := localStorage_getItem w STORAGE_KEY in
         match raw with
         | None => Normal []
         | Some raw =>
             if negb (truthy raw) then Normal []
             else
               let! parsed := JSON_parse h raw in
               match parsed with
               | VArr items => Normal items
               | _ => Normal []
               end
         end)
        (Normal [])
  end.

(** [window.matchMedia?.('(prefers-color-scheme: dark)').matches]:
    [None] is [undefined], the value of the optional chain when
    [matchMedia] is missing. *)
Definition prefersDark (w : Window) : option bool :=
  match matchMedia w with
  | None => None
  | Some query => Some (query (lit "(prefers-color-scheme: dark)"))
  end.

Definition loadInitialTheme (h : Host) : completion Theme :=
  match window h with
  | None => Normal dark
  | Some w =>
      let! stored := localStorage_getItem w THEME_KEY in
      if decide (stored = Some (lit "dark")) then Normal dark
      else if decide (stored = Some (lit "light")) then Normal light
      else
        match prefersDark w with
        | Some true => Normal dark
        | Some false | None => Normal light
        end
  end.

(** A stored record of the shape the application writes, read back as a
    [Todo]; any other value is not one. *)
Definition asTodo (v : value) : option Todo :=
  match v with
  | VObj fs =>
      match field (lit "id") fs, field (lit "text") fs,
            field (lit "done") fs, field (lit "createdAt") fs with
      | Some (VStr i), Some (VStr t), Some (VBool d), Some (VNum c) =>
          Some (mkTodo i t d c)
      | _, _, _, _ => None
      end
  | _ => None
  end.

(** ** The component

    [useState] gives the component four state variables.  An event
    handler does not change them itself: it hands updates to the
    setters, and React applies the queued updates in order before the
    next render. *)
Record AppState : Type := mkApp {
  todos : list Todo;
  input : jsstring;
  filter : Filter;
  theme : Theme
}.

Inductive Update : Type :=
  | setTodos (updater : list Todo → list Todo)
  | setInput (v : jsstring)
  | setFilter (f : Filter)
  | setTheme (updater : Theme → Theme).

Definition apply_update (s : AppState) (u : Update) : AppState :=
  match u with
  | setTodos updater => mkApp (updater (todos s)) (input s) (filter s) (theme s)
  | setInput v => mkApp (todos s) v (filter s) (theme s)
  | setFilter f => mkApp (todos s) (input s) f (theme s)
  | setTheme updater => mkApp (todos s) (input s) (filter s) (updater (theme s))
  end.

Definition commit (s : AppState) (queue : list Update) : AppState :=
  fold_left apply_update queue s.

(** The state of the first render: [useState(() => loadInitialTodos())],
    [useState('')], [useState('all')], [useState(() => loadInitialTheme())],
    for stored tasks [ts] and theme [th]. *)
Definition initialState (ts : list Todo) (th : Theme) : AppState :=
  mkApp ts [] all th.

(** The derived values of a render (the bodies of the two [useMemo]
    callbacks). *)
Definition filteredTodos (s : AppState) : list Todo :=
  match filter s with
  | active => List.filter (fun t => negb (done t)) (todos s)
  | completed => List.filter (fun t => done t) (todos s)
  | all => todos s
  end.

Definition remainingCount (s : AppState) : nat :=
  length (List.filter (fun t => negb (done t)) (todos s)).

(** The handlers.  [handleAddTodo] is the only one that reads the state
    of the render it was created in; [uuid] and [now] are what
    [crypto.randomUUID()] and [Date.now()] return at this call.  Its
    [e.preventDefault()] concerns the browser's form submission only. *)
Definition handleAddTodo (uuid : jsstring) (now : Z) (s : AppState) : list Update :=
  let text := trim (input s) in
  if negb (truthy text) then []
  else
    let newTodo := mkTodo uuid text false now in
    [setTodos (fun prev => newTodo :: prev); setInput []].

Definition toggleTodo (id0 : jsstring) : list Update :=
  [setTodos (fun prev =>
     List.map (fun todo =>
       if decide (id todo = id0)
       then mkTodo (id todo) (text todo) (negb (done todo)) (createdAt todo)
       else todo) prev)].

Definition deleteTodo (id0 : jsstring) : list Update :=
  [setTodos (fun prev =>
     List.filter (fun todo => negb (bool_decide (id todo = id0))) prev)].

Definition clearCompleted : list Update :=
  [setTodos (fun prev => List.filter (fun t => negb (done t)) prev)].

Definition handleThemeToggle : list Update :=
  [setTheme (fun prev => match prev with dark => light | light => dark end)].

(** The events the rendered page can raise, each with the handler the
    JSX attaches to it. *)
Inductive Event : Type :=
  | Submit (uuid : jsstring) (now : Z)
  | Change (v : jsstring)
  | ClickToggle (id0 : jsstring)
  | ClickDelete (id0 : jsstring)
  | ClickClearCompleted
  | ClickFilter (key : Filter)
  | ClickTheme.

Definition handler (e : Event) (s : AppState) : list Update :=
  match e with
  | Submit uuid now => handleAddTodo uuid now s
  | Change v => [setInput v]
  | ClickToggle id0 => toggleTodo id0
  | ClickDelete id0 => deleteTodo id0
  | ClickClearCompleted => clearCompleted
  | ClickFilter key => [setFilter key]
  | ClickTheme => handleThemeToggle
  end.

Definition step (s : AppState) (e : Event) : AppState :=
  commit s (handler e s).

Definition run (s : AppState) (es : list Event) : AppState :=
  fold_left step es s.

(** ** Memoised rendering

    [useMemo(compute, deps)] keeps the dependencies and the value of the
    render that last computed it, and computes again only when a
    dependency differs (by [Object.is]) from the kept one.  For the
    array [todos] that comparison is object identity, so the instance
    records which array object the state holds: [todos_ref] numbers the
    arrays in allocation order.  Every updater of this component builds
    a new array ([map], [filter], a spread literal), so every [setTodos]
    installs a new identity. *)
Definition useMemo {D A} `{EqDecision D}
    (compute : A) (deps : D) (cell : D * A) : D * A :=
  if decide (deps = cell.1) then cell else (deps, compute).

#[global] Instance Filter_eq_dec : EqDecision Filter.
Proof. solve_decision. Defined.

Record Component : Type := mkComponent {
  state : AppState;
  todos_ref : nat;
  filtered_cell : (nat * Filter) * list Todo;
  remaining_cell : nat * nat
}.

Definition apply_update_ref (sr : AppState * nat) (u : Update) : AppState * nat :=
  (apply_update sr.1 u,
   match u with setTodos _ => S sr.2 | _ => sr.2 end).

Definition render (s : AppState) (ref : nat)
    (fc : (nat * Filter) * list Todo) (rc : nat * nat) : Component :=
  mkComponent s ref
    (useMemo (filteredTodos s) (ref, filter s) fc)
    (useMemo (remainingCount s) ref rc).

(** First render: nothing is kept yet, both values are computed. *)
Definition mount (s : AppState) : Component :=
  mkComponent s 0 ((0%nat, filter s), filteredTodos s) (0%nat, remainingCount s).

(** An event runs its handler against the state of the last render,
    React applies the queued updates and renders again. *)
Definition dispatch (i : Component) (e : Event) : Component :=
  let sr := fold_left apply_update_ref (handler e (state i)) (state i, todos_ref i) in
  render sr.1 sr.2 (filtered_cell i) (remaining_cell i).

Definition dispatch_all (i : Component) (es : list Event) : Component :=
  fold_left dispatch es i.

(** What the page shows. *)
Definition shown_filteredTodos (i : Component) : list Todo := (filtered_cell i).2.
Definition shown_remainingCount (i : Component) : nat := (remaining_cell i).2.

(** ** Reference notions used in the statements *)

(** The number of tasks that are not done, counted task by task. *)
Fixpoint count_open (ts : list Todo) : nat :=
  match ts with
  | [] => 0%nat
  | t :: ts' => ((if done t then 0 else 1) + count_open ts')%nat
  end.

(** [view] is exactly the elements of [ts] that satisfy [P], in the
    order of [ts]: it is a subsequence of [ts] made of such elements,
    and every subsequence of [ts] made of such elements is a
    subsequence of it. *)
Definition selects {A} (P : A → Prop) (ts view : list A) : Prop :=
  view `sublist_of` ts ∧
  Forall P view ∧
  ∀ k, k `sublist_of` ts → Forall P k → k `sublist_of` view.

(** The kept values of an instance are those of its current state. *)
Definition coherent (i : Component) : Prop :=
  filtered_cell i = ((todos_ref i, filter (state i)), filteredTodos (state i)) ∧
  remaining_cell i = (todos_ref i, remainingCount (state i)).

(** The task whose [done] flag is the opposite of that of [t]. *)
Definition flipped (t : Todo) : Todo :=
  mkTodo (id t) (text t) (negb (done t)) (createdAt t).

(** A toggle or a delete of an id outside the set [U] of ids. *)
Definition toggle_or_delete_outside (U : jsstring → bool) (e : Event) : Prop :=
  match e with
  | ClickToggle id0 | ClickDelete id0 => U id0 = false
  | _ => False
  end.

(** [addTask(text)]: the text is typed into the box, then the form is
    submitted. *)
Definition addTask (txt uuid : jsstring) (now : Z) (s : AppState) : AppState :=
  run s [Change txt; Submit uuid now].

(** A sequence of [addTask] calls, each with its text and the id and
    time the host generates for it. *)
Definition add_all (adds : list (jsstring * jsstring * Z)) (s : AppState)
    : AppState :=
  fold_left (λ s a, addTask a.1.1 a.1.2 a.2 s) adds s.

(** ** Sample hosts and tasks *)

(** A storage holding the pairs of [store], and a parser that knows the
    texts of [parses] and rejects any other text with a [SyntaxError]. *)
Definition sample_window (store : list (jsstring * jsstring))
    (media : option bool) : Window :=
  {| localStorage_getItem := fun k => Normal (assoc k store);
     matchMedia := option_map (fun b _ => b) media |}.

Definition sample_parse (parses : list (jsstring * value)) (raw : jsstring)
    : completion value :=
  match assoc raw parses with
  | Some v => Normal v
  | None => Throw (Thrown (lit "SyntaxError"))
  end.

Definition sample_host (store : list (jsstring * jsstring))
    (media : option bool) (parses : list (jsstring * value)) : Host :=
  {| window := Some (sample_window store media);
     JSON_parse := sample_parse parses |}.

(** A host whose storage cannot be read. *)
Definition locked_host : Host :=
  {| window := Some {| localStorage_getItem :=
                         fun _ => Throw (Thrown (lit "SecurityError"));
                       matchMedia := None |};
     JSON_parse := sample_parse [] |}.

(** A JSON text written with ['] standing for the double quote. *)
Definition json_lit (s : string) : jsstring :=
  List.map (λ c, if c =? 39 then 34 else c) (lit s).

Definition todo_value (t : Todo) : value :=
  VObj [(lit "id", VStr (id t)); (lit "text", VStr (text t));
        (lit "done", VBool (done t)); (lit "createdAt", VNum (createdAt t))].

Definition milk : Todo := mkTodo (lit "a1") (lit "Buy milk") false 1000.
Definition eggs : Todo := mkTodo (lit "b2") (lit "Buy eggs") true 2000.
Definition bread : Todo := mkTodo (lit "c3") (lit "Bake bread") false 3000.
Definition milk_again : Todo := mkTodo (lit "a1") (lit "Buy more milk") true 4000.

(** A storage in which two records carry the same id. *)
Definition twice_text : jsstring :=
  json_lit ("[{'id':'a1','text':'Buy milk','done':false,'createdAt':1000},"
            ++ "{'id':'a1','text':'Buy more milk','done':true,'createdAt':4000}]").

Definition twice_host : Host :=
  sample_host [(STORAGE_KEY, twice_text)] None
    [(twice_text, VArr [todo_value milk; todo_value milk_again])].

(** The set of ids listed in [ids]. *)
Definition among (ids : list jsstring) (i : jsstring) : bool :=
  bool_decide (i ∈ ids).

(** ** Effects

    The two [useEffect] calls write to the browser: to
    [window.localStorage], a map from keys to values, and to the class
    list of [document.documentElement], an ordered set of tokens.  The
    storage is taken to have room for what is written. *)
Record Browser : Type := mkBrowser {
  localStorage : gmap jsstring jsstring;
  classList : list jsstring
}.

(** [localStorage.setItem(k, v)]. *)
Definition setItem (k v : jsstring) (b : Browser) : Browser :=
  mkBrowser (<[k:=v]> (localStorage b)) (classList b).

(** [classList.add(tok)]: appended unless already there. *)
Definition classList_add (tok : jsstring) (b : Browser) : Browser :=
  mkBrowser (localStorage b)
    (if bool_decide (tok ∈ classList b) then classList b
     else classList b ++ [tok]).

(** [classList.remove(tok)]. *)
Definition classList_remove (tok : jsstring) (b : Browser) : Browser :=
  mkBrowser (localStorage b)
    (List.filter (λ c, negb (bool_decide (c = tok))) (classList b)).

(** A theme is the string that names it. *)
Definition theme_name (t : Theme) : jsstring :=
  match t with dark => lit "dark" | light => lit "light" end.

#[global] Instance Theme_eq_dec : EqDecision Theme.
Proof. solve_decision. Defined.

(** The body of the first effect; [stringify] is the host's
    [JSON.stringify] on arrays of tasks. *)
Definition persist_todos (stringify : list Todo → jsstring)
    (s : AppState) (b : Browser) : Browser :=
  setItem STORAGE_KEY (stringify (todos s)) b.

(** The body of the second effect. *)
Definition apply_theme (s : AppState) (b : Browser) : Browser :=
  let b' := match theme s with
            | dark => classList_add (lit "dark") b
            | light => classList_remove (lit "dark") b
            end in
  setItem THEME_KEY (theme_name (theme s)) b'.

(** [useEffect(effect, deps)] runs the effect after the first render
    ([prev] is [None]) and after a render whose dependencies differ from
    those of the render before. *)
Definition useEffect {D} `{EqDecision D}
    (effect : Browser → Browser) (deps : D) (prev : option D)
    (b : Browser) : Browser :=
  if decide (prev = Some deps) then b else effect b.

Definition run_effects (stringify : list Todo → jsstring)
    (prev : option (nat * Theme)) (i : Component) (b : Browser) : Browser :=
  let b1 := useEffect (persist_todos stringify (state i))
              (todos_ref i) (fst <$> prev) b in
  useEffect (apply_theme (state i)) (theme (state i)) (snd <$> prev) b1.

(** The mounted component together with the browser it writes to. *)
Record Page : Type := mkPage {
  component : Component;
  browser : Browser
}.

Definition page_mount (stringify : list Todo → jsstring)
    (s0 : AppState) (b : Browser) : Page :=
  mkPage (mount s0) (run_effects stringify None (mount s0) b).

Definition page_dispatch (stringify : list Todo → jsstring)
    (p : Page) (e : Event) : Page :=
  let i' := dispatch (component p) e in
  mkPage i'
    (run_effects stringify
       (Some (todos_ref (component p), theme (state (component p))))
       i' (browser p)).

Definition page_run (stringify : list Todo → jsstring)
    (p : Page) (es : list Event) : Page :=
  fold_left (page_dispatch stringify) es p.

(** The host a reload of the page runs in: its storage is the one the
    effects wrote to. *)
Definition reload_host (b : Browser) (media : option (jsstring → bool))
    (parse : jsstring → completion value) : Host :=
  {| window := Some {| localStorage_getItem :=
                         λ k, Normal (localStorage b !! k);
                       matchMedia := media |};
     JSON_parse := parse |}.

(** The ids the host generated for the [Submit] events of [es]. *)
Definition submitted (es : list Event) : list jsstring :=
  List.concat (List.map (λ e, match e with
                              | Submit uuid _ => [uuid]
                              | _ => []
                              end) es).

(** The browser holds what the current state of the page says: the
    serialised tasks and the theme under their keys, and the class
    [dark] exactly when the theme is [dark]. *)
Definition synced (stringify : list Todo → jsstring) (p : Page) : Prop :=
  localStorage (browser p) !! STORAGE_KEY
    = Some (stringify (todos (state (component p)))) ∧
  localStorage (browser p) !! THEME_KEY
    = Some (theme_name (theme (state (component p)))) ∧
  (lit "dark" ∈ classList (browser p) ↔ theme (state (component p)) = dark).

(** The classes other than [dark], in their order. *)
Definition other_classes (b : Browser) : list jsstring :=
  List.filter (λ c, negb (bool_decide (c = lit "dark"))) (classList b).

(** A text has no white space at either end. *)
Definition trimmed (s : jsstring) : Prop := trim s = s.

(** The tasks of [ts] that carry the id [id0]. *)
Definition with_id (id0 : jsstring) (ts : list Todo) : list Todo :=
  List.filter (λ t, bool_decide (id t = id0)) ts.

(** A serialiser for tasks whose id and text need no escaping; on such
    tasks it prints what [JSON.stringify] prints. *)
Definition sample_stringify_todo (t : Todo) : jsstring :=
  json_lit "{'id':'" ++ id t ++ json_lit "','text':'" ++ text t
  ++ json_lit "','done':" ++ lit (if done t then "true" else "false")
  ++ json_lit ",'createdAt':" ++ lit (pretty (createdAt t)) ++ lit "}".

Fixpoint sample_stringify_items (ts : list Todo) : jsstring :=
  match ts with
  | [] => []
  | [t] => sample_stringify_todo t
  | t :: ts' => sample_stringify_todo t ++ lit "," ++ sample_stringify_items ts'
  end.

Definition sample_stringify (ts : list Todo) : jsstring :=
  lit "[" ++ sample_stringify_items ts ++ lit "]".

(** * Properties *)

(** ** Rehydration *)
Section Rehydration.

Variable h : Host.

Lemma loadInitialTodos_no_window :
  window h = None → loadInitialTodos h = Normal [].
Proof. intros Hw. unfold loadInitialTodos. by rewrite Hw. Qed.

(** An array is handed over as parsed, element by element. *)
Lemma loadInitialTodos_array w raw items :
  window h = Some w →
  localStorage_getItem w STORAGE_KEY = Normal (Some raw) →
  raw ≠ [] →
  JSON_parse h raw = Normal (VArr items) →
  loadInitialTodos h = Normal items.
Proof.
  intros Hw Hget Hraw Hparse. unfold loadInitialTodos.
  rewrite Hw, Hget. simpl. destruct raw as [|c raw]; [done|].
  simpl. by rewrite Hparse.
Qed.

Lemma loadInitialTodos_returns : ∃ items, loadInitialTodos h = Normal items.
Proof.
  unfold loadInitialTodos. destruct (window h) as [w|]; [|by eexists].
  destruct (localStorage_getItem w STORAGE_KEY) as [[raw|]|e]; simpl;
    [|by eexists..].
  destruct (truthy raw); simpl; [|by eexists].
  destruct (JSON_parse h raw) as [[]|e]; simpl; by eexists.
Qed.

End Rehydration.

(** C3. Whatever the host, [loadInitialTodos] returns normally (nothing
    is thrown to the caller), and it returns the empty list when the
    stored value is absent, when [JSON.parse] throws on it, and when it
    parses to something that is not an array. *)
Theorem loadInitialTodos_falls_back_to_empty (h : Host) :
  (∃ items, loadInitialTodos h = Normal items) ∧
  ∀ w, window h = Some w →
    (localStorage_getItem w STORAGE_KEY = Normal None →
       loadInitialTodos h = Normal []) ∧
    (∀ raw e, localStorage_getItem w STORAGE_KEY = Normal (Some raw) →
       JSON_parse h raw = Throw e →
       loadInitialTodos h = Normal []) ∧
    (∀ raw v, localStorage_getItem w STORAGE_KEY = Normal (Some raw) →
       JSON_parse h raw = Normal v → isArray v = false →
       loadInitialTodos h = Normal []).
Proof.
  split; [apply loadInitialTodos_returns|].
  intros w Hw. unfold loadInitialTodos. rewrite Hw. repeat split.
  - by intros ->.
  - intros raw e -> Hparse. simpl. destruct (truthy raw); simpl; [|done].
    by rewrite Hparse.
  - intros raw v -> Hparse Harr. simpl. destruct (truthy raw); simpl; [|done].
    rewrite Hparse. simpl. by destruct v.
Qed.

Lemma loadInitialTodos_falls_back_to_empty_witness :
  loadInitialTodos (sample_host [] None []) = Normal [] ∧
  loadInitialTodos
    (sample_host [(STORAGE_KEY, lit "{oops")] None []) = Normal [] ∧
  loadInitialTodos
    (sample_host [(STORAGE_KEY, lit "{}")] None [(lit "{}", VObj [])])
    = Normal [].
Proof.
  split; [|split].
  - destruct (loadInitialTodos_falls_back_to_empty (sample_host [] None []))
      as [_ H].
    destruct (H _ eq_refl) as (Habsent & _ & _). apply Habsent. reflexivity.
  - destruct (loadInitialTodos_falls_back_to_empty
                (sample_host [(STORAGE_KEY, lit "{oops")] None []))
      as [_ H].
    destruct (H _ eq_refl) as (_ & Hthrows & _).
    apply (Hthrows (lit "{oops") (Thrown (lit "SyntaxError"))); reflexivity.
  - destruct (loadInitialTodos_falls_back_to_empty
                (sample_host [(STORAGE_KEY, lit "{}")] None
                   [(lit "{}", VObj [])]))
      as [_ H].
    destruct (H _ eq_refl) as (_ & _ & Hother).
    apply (Hother (lit "{}") (VObj [])); reflexivity.
Defined.

(** An unreadable storage is caught as well. *)
Example loadInitialTodos_locked : loadInitialTodos locked_host = Normal [].
Proof. reflexivity. Qed.

(** ** Theme initialisation *)

(** With a window, nothing valid stored and no [matchMedia], the
    optional chain yields [undefined] and the theme is [light], not
    [dark]. *)
Lemma loadInitialTheme_without_matchMedia_is_light :
  window (sample_host [] None []) = Some (sample_window [] None) ∧
  localStorage_getItem (sample_window [] None) THEME_KEY = Normal None ∧
  matchMedia (sample_window [] None) = None ∧
  loadInitialTheme (sample_host [] None []) = Normal light ∧
  loadInitialTheme (sample_host [] None []) ≠ Normal dark.
Proof. repeat split; done. Qed.

(** C2, amended. Without a window the theme is [dark]. With a window
    whose storage answers: a stored ["dark"] or ["light"] is used;
    otherwise the theme follows [matchMedia] when the host defines it,
    and is [light] when the host does not. *)
Theorem loadInitialTheme_cases (h : Host) :
  (window h = None → loadInitialTheme h = Normal dark) ∧
  ∀ w stored,
    window h = Some w →
    localStorage_getItem w THEME_KEY = Normal stored →
    (stored = Some (lit "dark") → loadInitialTheme h = Normal dark) ∧
    (stored = Some (lit "light") → loadInitialTheme h = Normal light) ∧
    (stored ≠ Some (lit "dark") → stored ≠ Some (lit "light") →
       (∀ query, matchMedia w = Some query →
          loadInitialTheme h =
            Normal (if query (lit "(prefers-color-scheme: dark)")
                    then dark else light)) ∧
       (matchMedia w = None → loadInitialTheme h = Normal light)).
Proof.
  unfold loadInitialTheme. split; [by intros ->|].
  intros w stored -> ->. simpl. repeat split.
  - intros ->. by rewrite decide_True.
  - intros ->. rewrite decide_False by done. by rewrite decide_True.
  - intros query Hq. rewrite !decide_False by done.
    unfold prefersDark. rewrite Hq. by destruct (query _).
  - intros Hq. rewrite !decide_False by done.
    unfold prefersDark. by rewrite Hq.
Qed.

Lemma loadInitialTheme_cases_witness :
  loadInitialTheme {| window := None; JSON_parse := sample_parse [] |}
    = Normal dark ∧
  loadInitialTheme (sample_host [(THEME_KEY, lit "light")] (Some true) [])
    = Normal light ∧
  loadInitialTheme (sample_host [(THEME_KEY, lit "dark")] (Some false) [])
    = Normal dark ∧
  loadInitialTheme (sample_host [(THEME_KEY, lit "blue")] (Some true) [])
    = Normal dark ∧
  loadInitialTheme (sample_host [] (Some false) []) = Normal light ∧
  loadInitialTheme (sample_host [] None []) = Normal light.
Proof.
  split_and!.
  - apply (loadInitialTheme_cases
             {| window := None; JSON_parse := sample_parse [] |}).
    reflexivity.
  - destruct (loadInitialTheme_cases
                (sample_host [(THEME_KEY, lit "light")] (Some true) []))
      as [_ H].
    destruct (H _ _ eq_refl eq_refl) as (_ & Hlight & _).
    apply Hlight. reflexivity.
  - destruct (loadInitialTheme_cases
                (sample_host [(THEME_KEY, lit "dark")] (Some false) []))
      as [_ H].
    destruct (H _ _ eq_refl eq_refl) as (Hdark & _).
    apply Hdark. reflexivity.
  - destruct (loadInitialTheme_cases
                (sample_host [(THEME_KEY, lit "blue")] (Some true) []))
      as [_ H].
    destruct (H _ _ eq_refl eq_refl) as (_ & _ & Hother).
    destruct Hother as [Hmedia _]; [by vm_compute..|].
    apply (Hmedia (fun _ => true)). reflexivity.
  - destruct (loadInitialTheme_cases (sample_host [] (Some false) []))
      as [_ H].
    destruct (H _ _ eq_refl eq_refl) as (_ & _ & Hother).
    destruct Hother as [Hmedia _]; [done..|].
    apply (Hmedia (fun _ => false)). reflexivity.
  - destruct (loadInitialTheme_cases (sample_host [] None []))
      as [_ H].
    destruct (H _ _ eq_refl eq_refl) as (_ & _ & Hother).
    destruct Hother as [_ Hnone]; [done..|].
    apply Hnone. reflexivity.
Defined.

(** ** Array [filter] *)
Section ArrayFilter.

Context {A : Type} (p : A → bool).

Lemma array_filter_sublist l : List.filter p l `sublist_of` l.
Proof.
  induction l as [|x l IH]; simpl; [constructor|].
  destruct (p x); by constructor.
Qed.

Lemma array_filter_Forall l : Forall (λ x, p x = true) (List.filter p l).
Proof.
  induction l as [|x l IH]; simpl; [constructor|].
  destruct (p x) eqn:Hx; [by constructor|done].
Qed.

Lemma array_filter_greatest l k :
  k `sublist_of` l → Forall (λ x, p x = true) k →
  k `sublist_of` List.filter p l.
Proof.
  induction 1 as [|x k l Hkl IH|x k l Hkl IH]; intros Hk; simpl.
  - constructor.
  - inversion Hk as [|? ? Hx Hk']; subst. rewrite Hx.
    constructor. by apply IH.
  - destruct (p x); [constructor|]; by apply IH.
Qed.

Lemma array_filter_selects l :
  selects (λ x, p x = true) l (List.filter p l).
Proof.
  split_and!; [apply array_filter_sublist|apply array_filter_Forall|].
  apply array_filter_greatest.
Qed.

Lemma array_filter_all l :
  Forall (λ x, p x = true) l → List.filter p l = l.
Proof.
  induction 1 as [|x l Hx Hl IH]; simpl; [done|]. by rewrite Hx, IH.
Qed.

Lemma array_filter_none l :
  Forall (λ x, p x = false) l → List.filter p l = [].
Proof.
  induction 1 as [|x l Hx Hl IH]; simpl; [done|]. by rewrite Hx.
Qed.

Lemma array_filter_split l :
  List.filter p l ++ List.filter (λ x, negb (p x)) l ≡ₚ l.
Proof.
  induction l as [|x l IH]; simpl; [done|].
  destruct (p x); simpl.
  - by constructor.
  - rewrite <- Permutation_middle. by constructor.
Qed.

End ArrayFilter.

Lemma selects_unique {A} (P : A → Prop) ts v1 v2 :
  selects P ts v1 → selects P ts v2 → v1 = v2.
Proof.
  intros (Hs1 & Hp1 & Hg1) (Hs2 & Hp2 & Hg2).
  apply (anti_symm sublist); auto.
Qed.

Lemma selects_ext {A} (P Q : A → Prop) ts v :
  (∀ x, P x ↔ Q x) → selects P ts v → selects Q ts v.
Proof.
  intros HPQ (Hs & Hp & Hg). split_and!; [done| |].
  - eapply Forall_impl; [done|]. intros x. by apply HPQ.
  - intros k Hk HQ. apply Hg; [done|].
    eapply Forall_impl; [done|]. intros x. by apply HPQ.
Qed.

(** ** Derived views *)

Lemma open_tasks_selects ts :
  selects (λ t, done t = false) ts (List.filter (λ t, negb (done t)) ts).
Proof.
  eapply selects_ext; [|apply array_filter_selects].
  intros t. simpl. by destruct (done t).
Qed.

(** C4. The filtered view is the whole list for [all], exactly the
    tasks that are not done for [active] and exactly the done ones for
    [completed], each in the order of the list; the last two views
    split the list between them and share no task. *)
Theorem filteredTodos_by_filter (ts : list Todo) (inp : jsstring) (th : Theme) :
  let view f := filteredTodos (mkApp ts inp f th) in
  view all = ts ∧
  selects (λ t, done t = false) ts (view active) ∧
  selects (λ t, done t = true) ts (view completed) ∧
  view completed ++ view active ≡ₚ ts ∧
  ∀ t, ¬ (t ∈ view active ∧ t ∈ view completed).
Proof.
  simpl. unfold filteredTodos; simpl. split_and!.
  - done.
  - apply open_tasks_selects.
  - apply (array_filter_selects done).
  - apply (array_filter_split done).
  - intros t [Ha Hc].
    apply list_elem_of_In, filter_In in Ha as [_ Ha].
    apply list_elem_of_In, filter_In in Hc as [_ Hc].
    by destruct (done t).
Qed.

Lemma remainingCount_count_open s : remainingCount s = count_open (todos s).
Proof.
  unfold remainingCount. induction (todos s) as [|t ts IH]; simpl; [done|].
  destruct (done t); simpl; by rewrite IH.
Qed.

(** ** Memoised values are never stale *)

(** Applying a queue of updates either installs a new array or leaves
    the task list as it was. *)
Lemma fold_apply_update_ref q : ∀ s r,
  let sr := fold_left apply_update_ref q (s, r) in
  sr.1 = commit s q ∧ (r ≤ sr.2)%nat ∧ (sr.2 = r → todos sr.1 = todos s).
Proof.
  induction q as [|u q IH]; intros s r; simpl; [by split_and!|].
  change (apply_update_ref (s, r) u)
    with (apply_update s u, match u with setTodos _ => S r | _ => r end).
  destruct (IH (apply_update s u)
               (match u with setTodos _ => S r | _ => r end))
    as (Hst & Hle & Hsame).
  split_and!.
  - by rewrite Hst.
  - destruct u; lia.
  - intros Hr. destruct u as [f| | |]; simpl in *;
      try (by rewrite Hsame); lia.
Qed.

Lemma filteredTodos_ext s s' :
  todos s = todos s' → filter s = filter s' →
  filteredTodos s = filteredTodos s'.
Proof. unfold filteredTodos. by intros -> ->. Qed.

Lemma remainingCount_ext s s' :
  todos s = todos s' → remainingCount s = remainingCount s'.
Proof. unfold remainingCount. by intros ->. Qed.

Lemma mount_coherent s : coherent (mount s).
Proof. by split. Qed.

Lemma dispatch_state i e : state (dispatch i e) = step (state i) e.
Proof.
  unfold dispatch, step. simpl.
  by destruct (fold_apply_update_ref (handler e (state i)) (state i) (todos_ref i))
    as (-> & _).
Qed.

Lemma dispatch_coherent i e : coherent i → coherent (dispatch i e).
Proof.
  intros [Hf Hr]. unfold dispatch.
  destruct (fold_apply_update_ref (handler e (state i)) (state i) (todos_ref i))
    as (_ & _ & Hsame).
  set (sr := fold_left apply_update_ref _ _) in *.
  unfold coherent, render, useMemo; simpl. rewrite Hf, Hr; simpl. split.
  - case_decide as Hd; [|done]. injection Hd as Href Hfil.
    f_equal; [by rewrite Href, Hfil|].
    symmetry. apply filteredTodos_ext; auto.
  - case_decide as Hd; [|done].
    f_equal; [done|]. symmetry. apply remainingCount_ext; auto.
Qed.

Lemma dispatch_all_state es : ∀ i, state (dispatch_all i es) = run (state i) es.
Proof.
  induction es as [|e es IH]; intros i; simpl; [done|].
  unfold dispatch_all, run in *; simpl. by rewrite IH, dispatch_state.
Qed.

Lemma dispatch_all_coherent es : ∀ i, coherent i → coherent (dispatch_all i es).
Proof.
  induction es as [|e es IH]; intros i Hi; simpl; [done|].
  apply IH. by apply dispatch_coherent.
Qed.

(** C5. [remainingCount] is the number of tasks that are not done.
    The value the page shows after any sequence of events is that
    number for the current task list, although [useMemo] keeps it
    between renders; so it is after one more toggle. *)
Theorem remainingCount_never_stale :
  (∀ s, remainingCount s = count_open (todos s)) ∧
  (∀ s0 es,
     let i := dispatch_all (mount s0) es in
     state i = run s0 es ∧
     shown_remainingCount i = count_open (todos (run s0 es))) ∧
  (∀ s0 es id0,
     let i := dispatch (dispatch_all (mount s0) es) (ClickToggle id0) in
     state i = step (run s0 es) (ClickToggle id0) ∧
     shown_remainingCount i =
       count_open (todos (step (run s0 es) (ClickToggle id0)))).
Proof.
  assert (Hall : ∀ s0 es,
    let i := dispatch_all (mount s0) es in
    state i = run s0 es ∧
    shown_remainingCount i = count_open (todos (run s0 es))).
  { intros s0 es i.
    assert (Hst : state i = run s0 es) by apply dispatch_all_state.
    split; [done|].
    destruct (dispatch_all_coherent es (mount s0) (mount_coherent s0))
      as [_ Hr].
    unfold shown_remainingCount. fold i in Hr. rewrite Hr. simpl.
    by rewrite remainingCount_count_open, Hst. }
  split_and!; [apply remainingCount_count_open|done|].
  intros s0 es id0.
  specialize (Hall s0 (es ++ [ClickToggle id0])).
  unfold dispatch_all, run in *. by rewrite !fold_left_app in Hall.
Qed.

(** ** Adding a task *)

(** C1. Submitting the form when the box holds [txt]: if [txt] trims to
    the empty string nothing is queued and the state stays as it is;
    otherwise exactly one task is put in front of the list, with the
    generated id, the trimmed text, [done = false] and the current time,
    the list is one longer, and the box is emptied. *)
Theorem handleAddTodo_prepends_trimmed
    (txt uuid : jsstring) (now : Z)
    (ts : list Todo) (fl : Filter) (th : Theme) :
  let s := mkApp ts txt fl th in
  let s' := step s (Submit uuid now) in
  (trim txt = [] → s' = s) ∧
  (trim txt ≠ [] →
     s' = mkApp (mkTodo uuid (trim txt) false now :: ts) [] fl th ∧
     length (todos s') = S (length ts)).
Proof.
  simpl. unfold step, handler, handleAddTodo; simpl. split.
  - by intros ->.
  - intros Hne. destruct (trim txt) as [|c rest] eqn:Htrim; [done|].
    simpl. by split.
Qed.

Lemma handleAddTodo_prepends_trimmed_witness :
  step (mkApp [milk] (lit "   ") active dark) (Submit (lit "u7") 5000)
    = mkApp [milk] (lit "   ") active dark ∧
  step (mkApp [milk] (lit "  Call mum ") active dark) (Submit (lit "u7") 5000)
    = mkApp [mkTodo (lit "u7") (lit "Call mum") false 5000; milk] [] active dark.
Proof.
  split.
  - apply (handleAddTodo_prepends_trimmed
             (lit "   ") (lit "u7") 5000 [milk] active dark).
    reflexivity.
  - apply (handleAddTodo_prepends_trimmed
             (lit "  Call mum ") (lit "u7") 5000 [milk] active dark).
    by vm_compute.
Defined.

(** ** Clearing, toggling and deleting *)

(** C6. [clearCompleted] keeps exactly the tasks that are not done, in
    their order; what it drops is the done tasks; and the completed view
    taken right after it is empty. *)
Theorem clearCompleted_keeps_open (s : AppState) :
  let s' := step s ClickClearCompleted in
  selects (λ t, done t = false) (todos s) (todos s') ∧
  List.filter (λ t, done t) (todos s) ++ todos s' ≡ₚ todos s ∧
  filteredTodos (step s' (ClickFilter completed)) = [].
Proof.
  simpl. unfold step, filteredTodos; simpl. split_and!.
  - apply open_tasks_selects.
  - apply (array_filter_split done).
  - apply array_filter_none.
    eapply Forall_impl; [apply (array_filter_Forall (λ t, negb (done t)))|].
    intros t. simpl. by destruct (done t).
Qed.

Lemma toggle_map_absent id0 ts :
  Forall (λ t, id t ≠ id0) ts →
  List.map (λ todo, if decide (id todo = id0)
                    then mkTodo (id todo) (text todo) (negb (done todo))
                           (createdAt todo)
                    else todo) ts = ts.
Proof.
  induction 1 as [|t ts Ht Hts IH]; simpl; [done|].
  by rewrite decide_False, IH.
Qed.

(** C7. Toggling or deleting an id that no task of the list carries
    leaves the state as it is. *)
Theorem toggle_delete_absent_id (s : AppState) (id0 : jsstring) :
  Forall (λ t, id t ≠ id0) (todos s) →
  step s (ClickToggle id0) = s ∧ step s (ClickDelete id0) = s.
Proof.
  intros Habs. destruct s as [ts inp fl th]. unfold step; simpl in *. split.
  - by rewrite toggle_map_absent.
  - rewrite array_filter_all; [done|].
    eapply Forall_impl; [done|]. intros t Ht. simpl.
    by rewrite bool_decide_eq_false_2.
Qed.

Lemma toggle_delete_absent_id_witness :
  step (mkApp [milk; eggs] [] all dark) (ClickToggle (lit "zz"))
    = mkApp [milk; eggs] [] all dark ∧
  step (mkApp [milk; eggs] [] all dark) (ClickDelete (lit "zz"))
    = mkApp [milk; eggs] [] all dark.
Proof.
  apply (toggle_delete_absent_id (mkApp [milk; eggs] [] all dark) (lit "zz")).
  repeat constructor; by vm_compute.
Defined.

(** C8. A toggle changes nothing but [done] flags: the list keeps its
    length, and position by position the task keeps its id, text and
    creation time and is the very same task unless its id is the toggled
    one; the box, the filter and the theme are untouched. *)
Theorem toggleTodo_frame (s : AppState) (id0 : jsstring) :
  let s' := step s (ClickToggle id0) in
  length (todos s') = length (todos s) ∧
  Forall2 (λ t t',
      id t' = id t ∧ text t' = text t ∧ createdAt t' = createdAt t ∧
      (t' = t ∨ (id t = id0 ∧ done t' = negb (done t))))
    (todos s) (todos s') ∧
  input s' = input s ∧ filter s' = filter s ∧ theme s' = theme s.
Proof.
  simpl. unfold step; simpl. split_and!; try done.
  - by rewrite length_map.
  - induction (todos s) as [|t ts IH]; simpl; constructor; [|done].
    case_decide; simpl; split_and!; auto.
Qed.

(** ** Order of the list *)
Section Untouched.

Variable U : jsstring → bool.

Lemma step_outside_cons s e x :
  U (id x) = true → toggle_or_delete_outside U e →
  todos (step (mkApp (x :: todos s) (input s) (filter s) (theme s)) e)
    = x :: todos (step s e).
Proof.
  intros Hx He. destruct e as [| |id0|id0| | |]; simpl in He; try done;
    unfold step; simpl.
  - rewrite decide_False; [done|]. intros Heq. congruence.
  - rewrite bool_decide_eq_false_2; [done|]. intros Heq. congruence.
Qed.

Lemma step_outside_keeps s e :
  toggle_or_delete_outside U e →
  List.filter (λ t, U (id t)) (todos (step s e))
    = List.filter (λ t, U (id t)) (todos s) ∧
  input (step s e) = input s ∧ filter (step s e) = filter s ∧
  theme (step s e) = theme s.
Proof.
  intros He. destruct e as [| |id0|id0| | |]; simpl in He; try done;
    unfold step; simpl; (split; [|done]).
  - induction (todos s) as [|t ts IH]; simpl; [done|].
    case_decide as Hid; simpl.
    + rewrite Hid, He. done.
    + by rewrite IH.
  - induction (todos s) as [|t ts IH]; simpl; [done|].
    case_bool_decide as Hid; simpl.
    + rewrite Hid, He. done.
    + by rewrite IH.
Qed.

Lemma run_outside_cons es : ∀ s x,
  U (id x) = true → Forall (toggle_or_delete_outside U) es →
  todos (run (mkApp (x :: todos s) (input s) (filter s) (theme s)) es)
    = x :: todos (run s es).
Proof.
  induction es as [|e es IH]; intros s x Hx Hes; [done|].
  inversion Hes as [|? ? He Hes']; subst.
  unfold run in *; simpl.
  assert (Heta :
    step (mkApp (x :: todos s) (input s) (filter s) (theme s)) e
      = mkApp (x :: todos (step s e)) (input (step s e))
          (filter (step s e)) (theme (step s e))).
  { pose proof (step_outside_cons s e x Hx He) as Hstep.
    destruct (step_outside_keeps s e He) as (_ & -> & -> & ->).
    destruct (step_outside_keeps
                (mkApp (x :: todos s) (input s) (filter s) (theme s)) e He)
      as (_ & Hin & Hfl & Hth).
    destruct (step (mkApp (x :: todos s) (input s) (filter s) (theme s)) e).
    simpl in *. by subst. }
  rewrite Heta. by apply IH.
Qed.

Lemma run_outside_keeps es : ∀ s,
  Forall (toggle_or_delete_outside U) es →
  List.filter (λ t, U (id t)) (todos (run s es))
    = List.filter (λ t, U (id t)) (todos s).
Proof.
  induction es as [|e es IH]; intros s Hes; [done|].
  inversion Hes as [|? ? He Hes']; subst.
  unfold run in *; simpl. rewrite IH by done.
  by apply step_outside_keeps.
Qed.

End Untouched.

Lemma run_outside_ext (U : jsstring → bool) es : ∀ s s',
  Forall (toggle_or_delete_outside U) es → todos s = todos s' →
  todos (run s es) = todos (run s' es).
Proof.
  induction es as [|e es IH]; intros s s' Hes Heq; [done|].
  inversion Hes as [|? ? He Hes']; subst. unfold run in *; simpl.
  apply IH; [done|].
  destruct e; simpl in He; try done; unfold step; simpl; by rewrite Heq.
Qed.

(** C9. After a task [x] is added, any sequence of toggles and deletes
    of other ids leaves [x] at the front of the list, in front of what
    the same sequence makes of the older tasks; and the tasks whose ids
    the sequence does not name are then [x] followed by the older ones
    among them, in the order they had. *)
Theorem newest_stays_first
    (U : jsstring → bool) (txt uuid : jsstring) (now : Z)
    (ts : list Todo) (fl : Filter) (th : Theme) (es : list Event) :
  trim txt ≠ [] →
  U uuid = true →
  Forall (toggle_or_delete_outside U) es →
  let s := mkApp ts txt fl th in
  let x := mkTodo uuid (trim txt) false now in
  let s1 := step s (Submit uuid now) in
  todos s1 = x :: ts ∧
  todos (run s1 es) = x :: todos (run s es) ∧
  List.filter (λ t, U (id t)) (todos (run s1 es))
    = x :: List.filter (λ t, U (id t)) ts.
Proof.
  intros Hne Hu Hes s x s1.
  assert (Hs1 : s1 = mkApp (x :: ts) [] fl th).
  { unfold s1, step, handler, handleAddTodo; simpl.
    by destruct (trim txt). }
  split_and!.
  - by rewrite Hs1.
  - rewrite Hs1.
    pose proof (run_outside_cons U es (mkApp ts [] fl th) x Hu Hes) as Hrun.
    simpl in Hrun. rewrite Hrun.
    f_equal. by apply (run_outside_ext U).
  - rewrite run_outside_keeps by done. rewrite Hs1; simpl. by rewrite Hu.
Qed.

Lemma newest_stays_first_witness :
  todos (run (step (mkApp [milk; eggs; bread] (lit " Call mum ") all dark)
                (Submit (lit "u7") 5000))
           [ClickToggle (lit "a1"); ClickDelete (lit "b2")])
    = [mkTodo (lit "u7") (lit "Call mum") false 5000; flipped milk; bread] ∧
  List.filter (λ t, among [lit "u7"; lit "c3"] (id t))
    (todos (run (step (mkApp [milk; eggs; bread] (lit " Call mum ") all dark)
                   (Submit (lit "u7") 5000))
              [ClickToggle (lit "a1"); ClickDelete (lit "b2")]))
    = [mkTodo (lit "u7") (lit "Call mum") false 5000; bread].
Proof.
  destruct (newest_stays_first (among [lit "u7"; lit "c3"])
              (lit " Call mum ") (lit "u7") 5000 [milk; eggs; bread] all dark
              [ClickToggle (lit "a1"); ClickDelete (lit "b2")])
    as (_ & Hfront & Hrest).
  - by vm_compute.
  - by vm_compute.
  - repeat constructor; by vm_compute.
  - split; [exact Hfront|exact Hrest].
Defined.

(** ** Repeated ids *)

(** C10. A toggle flips every task that carries the id, wherever it
    stands in the list: the number of tasks whose [done] flag changes
    is the number of tasks with that id. *)
Theorem toggleTodo_flips_every_match (s : AppState) (id0 : jsstring) :
  let s' := step s (ClickToggle id0) in
  (∀ k t, todos s !! k = Some t → id t = id0 →
     todos s' !! k = Some (flipped t)) ∧
  length (List.filter (λ p, negb (eqb (done p.1) (done p.2)))
            (combine (todos s) (todos s')))
    = length (List.filter (λ t, bool_decide (id t = id0)) (todos s)).
Proof.
  simpl. unfold step; simpl. split.
  - intros k t Hk Hid.
    change (List.map ?f ?l) with (f <$> l).
    rewrite list_lookup_fmap, Hk. simpl. by rewrite decide_True.
  - induction (todos s) as [|t ts IH]; simpl; [done|].
    case_decide as Hid; simpl.
    + rewrite bool_decide_eq_true_2 by done.
      destruct (done t); simpl; by rewrite IH.
    + rewrite bool_decide_eq_false_2 by done.
      rewrite eqb_reflx. simpl. by rewrite IH.
Qed.

Lemma toggleTodo_flips_every_match_witness :
  loadInitialTodos twice_host
    = Normal [todo_value milk; todo_value milk_again] ∧
  mapM asTodo [todo_value milk; todo_value milk_again]
    = Some [milk; milk_again] ∧
  todos (step (initialState [milk; milk_again] dark) (ClickToggle (lit "a1")))
    !! 0%nat = Some (flipped milk) ∧
  todos (step (initialState [milk; milk_again] dark) (ClickToggle (lit "a1")))
    !! 1%nat = Some (flipped milk_again).
Proof.
  destruct (toggleTodo_flips_every_match
              (initialState [milk; milk_again] dark) (lit "a1"))
    as [Hflip _].
  split_and!; [reflexivity..| |].
  - apply (Hflip 0%nat milk); reflexivity.
  - apply (Hflip 1%nat milk_again); reflexivity.
Defined.

(** ** Sequences of adds *)

Lemma addTask_length txt uuid now s :
  length (todos (addTask txt uuid now s))
    = ((if truthy (trim txt) then 1 else 0) + length (todos s))%nat.
Proof.
  unfold addTask, run, step, handler, handleAddTodo; simpl.
  by destruct (trim txt).
Qed.

(** X21. After any sequence of adds (a text typed into the box, then the
    form submitted) the list has grown by the number of adds whose text
    does not trim to the empty string. *)
Lemma add_all_length adds : ∀ s,
  length (todos (add_all adds s))
    = (length (List.filter (λ a, truthy (trim a.1.1)) adds)
       + length (todos s))%nat.
Proof.
  induction adds as [|[[txt uuid] now] adds IH]; intros s; simpl; [done|].
  unfold add_all in *; simpl. rewrite IH, addTask_length.
  destruct (truthy (trim txt)); simpl; lia.
Qed.

(** The ids of the list stay pairwise distinct as long as each generated
    id is one no task carries. *)
Lemma step_ids_distinct s e :
  NoDup (List.map id (todos s)) →
  (∀ uuid now, e = Submit uuid now → uuid ∉ List.map id (todos s)) →
  NoDup (List.map id (todos (step s e))).
Proof.
  intros Hnd Hfresh.
  assert (Hfilter : ∀ (p : Todo → bool) ts,
            NoDup (List.map id ts) → NoDup (List.map id (List.filter p ts))).
  { intros p ts. induction ts as [|t ts IH]; simpl; [done|].
    rewrite NoDup_cons. intros [Hin Hts].
    destruct (p t); simpl; [|by apply IH].
    apply NoDup_cons. split; [|by apply IH].
    intros Hin'. apply Hin.
    apply list_elem_of_In, in_map_iff in Hin' as (t' & Hid & Ht').
    apply filter_In in Ht' as [Ht' _].
    apply list_elem_of_In, in_map_iff. eauto. }
  destruct e as [uuid now| |id0|id0| | |]; unfold step; simpl; try done.
  - unfold handleAddTodo. destruct (negb (truthy (trim (input s)))); simpl;
      [done|].
    apply NoDup_cons. split; [by eapply Hfresh|done].
  - rewrite map_map. simpl.
    erewrite map_ext; [exact Hnd|]. intros t. simpl. by case_decide.
  - by apply Hfilter.
  - by apply Hfilter.
Qed.

Example sample_stringify_twice :
  sample_stringify [milk; milk_again] = twice_text.
Proof. vm_compute. reflexivity. Qed.

(** * Further properties of the handlers *)

(** ** Deleting *)

Lemma array_filter_length {A} (p : A → bool) l :
  (length (List.filter p l) + length (List.filter (λ x, negb (p x)) l)
   = length l)%nat.
Proof.
  rewrite <- length_app. apply Permutation_length, array_filter_split.
Qed.

(** X1. A delete keeps exactly the tasks that do not carry the id, in
    their order: afterwards no task carries it, the list is shorter by
    the number of tasks that carried it, and nothing else in the state
    changes. *)
Theorem deleteTodo_removes_id (s : AppState) (id0 : jsstring) :
  let s' := step s (ClickDelete id0) in
  selects (λ t, id t ≠ id0) (todos s) (todos s') ∧
  with_id id0 (todos s') = [] ∧
  (length (todos s') + length (with_id id0 (todos s)) = length (todos s))%nat ∧
  input s' = input s ∧ filter s' = filter s ∧ theme s' = theme s.
Proof.
  simpl. unfold step, with_id; simpl.
  set (p := λ t : Todo, bool_decide (id t = id0)).
  split_and!; try done.
  - eapply selects_ext; [|apply (array_filter_selects (λ t, negb (p t)))].
    intros t. unfold p. simpl. case_bool_decide; naive_solver.
  - apply array_filter_none.
    eapply Forall_impl; [apply (array_filter_Forall (λ t, negb (p t)))|].
    intros t. simpl. by destruct (p t).
  - rewrite Nat.add_comm. apply (array_filter_length p).
Qed.

(** ** Toggling *)

Lemma flipped_flipped t : flipped (flipped t) = t.
Proof. destruct t as [i x d c]. unfold flipped; simpl. by rewrite negb_involutive. Qed.

(** X2. Toggling the same id twice gives the state back, whatever the
    list holds and however many tasks carry the id. *)
Theorem toggleTodo_twice (s : AppState) (id0 : jsstring) :
  step (step s (ClickToggle id0)) (ClickToggle id0) = s.
Proof.
  destruct s as [ts inp fl th]. unfold step; simpl. f_equal.
  rewrite map_map. rewrite <- (map_id ts) at 2. apply map_ext.
  intros t. destruct (decide (id t = id0)) as [Hid|Hid]; simpl.
  - rewrite decide_True by done. apply (flipped_flipped t).
  - by rewrite decide_False.
Qed.

(** X3. A toggle moves the tasks that carry the id across the count:
    those that were open leave it, those that were done enter it. *)
Theorem toggleTodo_remainingCount (s : AppState) (id0 : jsstring) :
  let hit := with_id id0 (todos s) in
  (remainingCount (step s (ClickToggle id0)) + count_open hit
   = remainingCount s + length (List.filter (λ t, done t) hit))%nat.
Proof.
  simpl. rewrite !remainingCount_count_open. unfold step, with_id; simpl.
  induction (todos s) as [|t ts IH]; simpl; [done|].
  case_decide as Hid; simpl.
  - rewrite bool_decide_eq_true_2 by done. simpl.
    destruct (done t); simpl; lia.
  - rewrite bool_decide_eq_false_2 by done.
    destruct (done t); simpl; lia.
Qed.

(** ** Clearing *)

(** X4. Clearing twice is clearing once; clearing leaves the remaining
    count as it was, and afterwards every task of the list counts. *)
Theorem clearCompleted_idempotent (s : AppState) :
  let s' := step s ClickClearCompleted in
  step s' ClickClearCompleted = s' ∧
  remainingCount s' = remainingCount s ∧
  remainingCount s' = length (todos s').
Proof.
  simpl. unfold step, remainingCount; simpl.
  assert (Hidem : List.filter (λ t, negb (done t))
                    (List.filter (λ t, negb (done t)) (todos s))
                  = List.filter (λ t, negb (done t)) (todos s)).
  { apply array_filter_all, array_filter_Forall. }
  split_and!; by rewrite Hidem.
Qed.

(** ** Order of events *)

Lemma toggle_map_id id0 (t : Todo) :
  id (if decide (id t = id0) then flipped t else t) = id t.
Proof. by case_decide. Qed.

(** X5. Toggles and deletes can be swapped: two toggles, two deletes,
    and a toggle with a delete give the same state in either order, for
    any two ids, equal or not. *)
Theorem toggle_delete_commute (s : AppState) (a b : jsstring) :
  step (step s (ClickToggle a)) (ClickToggle b)
    = step (step s (ClickToggle b)) (ClickToggle a) ∧
  step (step s (ClickDelete a)) (ClickDelete b)
    = step (step s (ClickDelete b)) (ClickDelete a) ∧
  step (step s (ClickToggle a)) (ClickDelete b)
    = step (step s (ClickDelete b)) (ClickToggle a).
Proof.
  destruct s as [ts inp fl th]. unfold step; simpl.
  change (λ todo : Todo,
            if decide (id todo = ?x)
            then mkTodo (id todo) (text todo) (negb (done todo)) (createdAt todo)
            else todo)
    with (λ todo : Todo, if decide (id todo = x) then flipped todo else todo).
  split_and!; f_equal.
  - rewrite !map_map. apply map_ext. intros t.
    rewrite !toggle_map_id.
    destruct (decide (id t = a)), (decide (id t = b)); simpl;
      rewrite ?decide_True, ?decide_False by done; done.
  - induction ts as [|t ts IH]; simpl; [done|].
    destruct (bool_decide (id t = a)) eqn:Ha, (bool_decide (id t = b)) eqn:Hb;
      simpl; rewrite ?Ha, ?Hb; simpl; by rewrite ?IH.
  - induction ts as [|t ts IH]; simpl; [done|].
    rewrite toggle_map_id.
    destruct (bool_decide (id t = b)); simpl; by rewrite IH.
Qed.


(** ** Identifiers *)

Lemma ids_filter_sublist (p : Todo → bool) ts :
  List.map id (List.filter p ts) `sublist_of` List.map id ts.
Proof.
  change (List.map id ?l) with (id <$> l).
  apply fmap_sublist, array_filter_sublist.
Qed.

Lemma ids_toggle id0 ts :
  List.map id (List.map (λ todo, if decide (id todo = id0)
                                 then mkTodo (id todo) (text todo)
                                        (negb (done todo)) (createdAt todo)
                                 else todo) ts)
    = List.map id ts.
Proof. rewrite map_map. apply map_ext. intros t. by case_decide. Qed.

Lemma NoDup_app_sublist {A} (k l r : list A) :
  k `sublist_of` l → NoDup (l ++ r) → NoDup (k ++ r).
Proof.
  intros Hk Hnd. eapply sublist_NoDup; [exact Hnd|].
  by apply sublist_app.
Qed.

(** X7. Ids stay pairwise distinct: if the ids of the list and the ids
    the host generates during a run of events are all different, no two
    tasks carry the same id after the run. *)
Theorem ids_stay_distinct (es : list Event) : ∀ s,
  NoDup (List.map id (todos s) ++ submitted es) →
  NoDup (List.map id (todos (run s es))).
Proof.
  induction es as [|e es IH]; intros s Hnd.
  - unfold submitted in Hnd; simpl in Hnd. by rewrite app_nil_r in Hnd.
  - unfold run in *; simpl. apply IH.
    destruct e as [uuid now| |id0|id0| | |];
      unfold submitted in *; simpl in *; unfold step; simpl; try done.
    + rewrite <- Permutation_middle in Hnd.
      unfold handleAddTodo. destruct (negb (truthy (trim (input s)))); simpl.
      * by apply NoDup_cons in Hnd as [_ Hnd].
      * done.
    + by rewrite ids_toggle.
    + eapply NoDup_app_sublist; [apply ids_filter_sublist|done].
    + eapply NoDup_app_sublist; [apply ids_filter_sublist|done].
Qed.

Lemma ids_stay_distinct_witness :
  NoDup (List.map id
           (todos (run (mkApp [milk; eggs] (lit "Call mum") all dark)
                     [Submit (lit "u7") 5000; ClickToggle (lit "a1");
                      Change (lit "Walk"); Submit (lit "u8") 6000;
                      ClickDelete (lit "b2")]))).
Proof.
  apply ids_stay_distinct.
  apply (bool_decide_unpack _ (dec := NoDup_dec (A := list N) _)).
  by vm_compute.
Defined.

Lemma ids_distinct_others (t : Todo) ts :
  NoDup (List.map id (t :: ts)) → Forall (λ t', id t' ≠ id t) ts.
Proof.
  simpl. rewrite NoDup_cons. intros [Hin _].
  apply Forall_forall. intros t' Ht' Heq. apply Hin.
  rewrite <- Heq. apply list_elem_of_In, in_map. by apply list_elem_of_In.
Qed.

(** X8. When the ids of the list are pairwise distinct, a click on the
    row of the task at position [k] touches that position only: the
    toggle replaces the task there by its flipped copy, the delete
    removes that one entry. *)
Theorem toggle_delete_one_row (ts : list Todo) : ∀ (k : nat) (t : Todo)
    (inp : jsstring) (fl : Filter) (th : Theme),
  NoDup (List.map id ts) →
  ts !! k = Some t →
  todos (step (mkApp ts inp fl th) (ClickToggle (id t)))
    = <[k := flipped t]> ts ∧
  todos (step (mkApp ts inp fl th) (ClickDelete (id t))) = delete k ts.
Proof.
  unfold step; simpl.
  induction ts as [|t0 ts IH]; intros k t inp fl th Hnd Hk; [done|].
  destruct k as [|k]; simpl in Hk.
  - injection Hk as ->. pose proof (ids_distinct_others t ts Hnd) as Hoth.
    simpl. rewrite decide_True, bool_decide_eq_true_2 by done. simpl.
    rewrite toggle_map_absent by done. split; [done|].
    apply array_filter_all. eapply Forall_impl; [exact Hoth|].
    intros t' Ht'. simpl. by rewrite bool_decide_eq_false_2.
  - assert (Hne : id t0 ≠ id t).
    { pose proof (ids_distinct_others t0 ts Hnd) as Hoth.
      rewrite Forall_forall in Hoth. intros Heq.
      apply (Hoth t); [|done]. by eapply list_elem_of_lookup_2. }
    simpl in Hnd. apply NoDup_cons in Hnd as [_ Hnd].
    destruct (IH k t inp fl th Hnd Hk) as [Htog Hdel].
    simpl. rewrite decide_False, bool_decide_eq_false_2 by done. simpl.
    by rewrite Htog, Hdel.
Qed.

Lemma toggle_delete_one_row_witness :
  todos (step (mkApp [milk; eggs; bread] [] all dark) (ClickToggle (lit "b2")))
    = [milk; flipped eggs; bread] ∧
  todos (step (mkApp [milk; eggs; bread] [] all dark) (ClickDelete (lit "b2")))
    = [milk; bread].
Proof.
  apply (toggle_delete_one_row [milk; eggs; bread] 1%nat eggs [] all dark).
  - apply (bool_decide_unpack _ (dec := NoDup_dec (A := list N) _)).
    by vm_compute.
  - reflexivity.
Defined.

(** ** Texts *)

Lemma trimStart_idempotent s : trimStart (trimStart s) = trimStart s.
Proof.
  induction s as [|c s IH]; simpl; [done|].
  destruct (is_trimmed_char c) eqn:Hc; simpl; [done|]. by rewrite Hc.
Qed.

Lemma trimStart_snoc r c :
  is_trimmed_char c = false → trimStart (r ++ [c]) = trimStart r ++ [c].
Proof.
  intros Hc. induction r as [|c' r IH]; simpl; [by rewrite Hc|].
  by destruct (is_trimmed_char c').
Qed.

Lemma trimStart_head s c u :
  trimStart s = c :: u → is_trimmed_char c = false.
Proof.
  induction s as [|c' s IH]; simpl; [done|].
  destruct (is_trimmed_char c') eqn:Hc'; [done|].
  intros Heq. by injection Heq as -> _.
Qed.

(** What [trim] returns has nothing left to trim. *)
Lemma trim_idempotent s : trim (trim s) = trim s.
Proof.
  unfold trim, trimEnd. destruct (trimStart s) as [|c u] eqn:Hs; [done|].
  pose proof (trimStart_head _ _ _ Hs) as Hc. simpl.
  rewrite trimStart_snoc by done. rewrite rev_app_distr. simpl.
  rewrite Hc. simpl. rewrite rev_involutive.
  rewrite trimStart_snoc by done. rewrite trimStart_idempotent.
  by rewrite rev_app_distr.
Qed.

(** X9. No event puts an empty or untrimmed text into the list: if every
    task of the list has a non-empty text without white space at either
    end, so has every task after any run of events. *)
Theorem texts_stay_trimmed (es : list Event) : ∀ s,
  Forall (λ t, text t ≠ [] ∧ trimmed (text t)) (todos s) →
  Forall (λ t, text t ≠ [] ∧ trimmed (text t)) (todos (run s es)).
Proof.
  induction es as [|e es IH]; intros s Hs; [done|].
  unfold run in *; simpl. apply IH. clear IH.
  assert (Hfilter : ∀ (p : Todo → bool),
    Forall (λ t, text t ≠ [] ∧ trimmed (text t)) (List.filter p (todos s))).
  { intros p. rewrite Forall_forall in Hs. apply Forall_forall.
    intros t Ht. apply Hs.
    apply list_elem_of_In, filter_In in Ht as [Ht _].
    by apply list_elem_of_In. }
  destruct e as [uuid now| |id0|id0| | |]; unfold step; simpl; try done.
  - unfold handleAddTodo.
    destruct (trim (input s)) as [|c u] eqn:Htrim; simpl; [done|].
    constructor; [|done]. simpl. split; [done|].
    unfold trimmed. rewrite <- Htrim. apply trim_idempotent.
  - clear Hfilter.
    induction Hs as [|t ts Ht Hts IHts]; simpl; constructor; [|done].
    by case_decide.
Qed.

Lemma texts_stay_trimmed_witness :
  Forall (λ t, text t ≠ [] ∧ trimmed (text t))
    (todos (run (mkApp [milk; eggs] [] all dark)
              [Change (lit "  Call mum  "); Submit (lit "u7") 5000;
               ClickToggle (lit "a1"); Change (lit "   ");
               Submit (lit "u8") 6000; ClickClearCompleted])).
Proof.
  apply texts_stay_trimmed.
  repeat constructor; by vm_compute.
Defined.

(** ** The shown list *)

(** X10. The list the page shows is never stale: after any sequence of
    events from the first render, the value kept by [useMemo] is the
    filtered view of the current tasks under the current filter. *)
Theorem shown_filteredTodos_never_stale (s0 : AppState) (es : list Event) :
  shown_filteredTodos (dispatch_all (mount s0) es) = filteredTodos (run s0 es).
Proof.
  destruct (dispatch_all_coherent es (mount s0) (mount_coherent s0))
    as [Hf _].
  unfold shown_filteredTodos. rewrite Hf. simpl.
  by rewrite dispatch_all_state.
Qed.

(** * Effects *)

Lemma keys_differ : STORAGE_KEY ≠ THEME_KEY.
Proof. by vm_compute. Qed.

Lemma dark_in_classList_add b : lit "dark" ∈ classList (classList_add (lit "dark") b).
Proof.
  unfold classList_add; simpl. case_bool_decide; [done|].
  apply elem_of_app. right. by apply list_elem_of_singleton.
Qed.

Lemma dark_not_in_classList_remove b :
  lit "dark" ∉ classList (classList_remove (lit "dark") b).
Proof.
  unfold classList_remove; simpl. intros Hin.
  apply list_elem_of_In, filter_In in Hin as [_ Hin].
  by rewrite bool_decide_eq_true_2 in Hin.
Qed.

Lemma apply_theme_synced s b :
  localStorage (apply_theme s b) !! THEME_KEY = Some (theme_name (theme s)) ∧
  localStorage (apply_theme s b) !! STORAGE_KEY = localStorage b !! STORAGE_KEY ∧
  (lit "dark" ∈ classList (apply_theme s b) ↔ theme s = dark).
Proof.
  unfold apply_theme, setItem; simpl. split_and!.
  - by rewrite lookup_insert_eq.
  - rewrite lookup_insert_ne by (symmetry; apply keys_differ).
    by destruct (theme s).
  - destruct (theme s); simpl.
    + split; [done|]. intros _. apply dark_in_classList_add.
    + split; [|done]. intros Hin.
      by apply dark_not_in_classList_remove in Hin.
Qed.

Lemma page_mount_synced stringify s0 b0 : synced stringify (page_mount stringify s0 b0).
Proof.
  unfold synced.
  change (browser (page_mount stringify s0 b0))
    with (apply_theme s0 (persist_todos stringify s0 b0)).
  change (state (component (page_mount stringify s0 b0))) with s0.
  destruct (apply_theme_synced s0 (persist_todos stringify s0 b0))
    as (Hth & Hst & Hcl).
  split_and!; [|done..].
  rewrite Hst. unfold persist_todos, setItem; simpl.
  by rewrite lookup_insert_eq.
Qed.

Lemma dispatch_same_ref i e :
  todos_ref (dispatch i e) = todos_ref i →
  todos (state (dispatch i e)) = todos (state i).
Proof.
  unfold dispatch; simpl.
  by destruct (fold_apply_update_ref (handler e (state i)) (state i) (todos_ref i))
    as (_ & _ & Hsame).
Qed.

Lemma page_dispatch_synced stringify p e :
  synced stringify p → synced stringify (page_dispatch stringify p e).
Proof.
  intros (Hst & Hth & Hcl). unfold synced.
  pose proof (dispatch_same_ref (component p) e) as Hsame.
  set (i' := dispatch (component p) e) in *.
  set (b1 := if decide (Some (todos_ref (component p)) = Some (todos_ref i'))
             then browser p
             else persist_todos stringify (state i') (browser p)).
  change (browser (page_dispatch stringify p e))
    with (if decide (Some (theme (state (component p))) = Some (theme (state i')))
          then b1 else apply_theme (state i') b1).
  change (component (page_dispatch stringify p e)) with i'.
  assert (Hb1 : localStorage b1 !! STORAGE_KEY
                  = Some (stringify (todos (state i')))
                ∧ localStorage b1 !! THEME_KEY = localStorage (browser p) !! THEME_KEY
                ∧ classList b1 = classList (browser p)).
  { unfold b1. case_decide as Href.
    - assert (Href' : todos_ref i' = todos_ref (component p)) by congruence.
      by rewrite (Hsame Href').
    - unfold persist_todos, setItem; simpl.
      rewrite lookup_insert_eq.
      by rewrite lookup_insert_ne by apply keys_differ. }
  destruct Hb1 as (Hst1 & Hth1 & Hcl1).
  case_decide as Htheme.
  - assert (Heq : theme (state i') = theme (state (component p)))
      by congruence.
    by rewrite Heq, Hst1, Hth1, Hcl1.
  - destruct (apply_theme_synced (state i') b1) as (Hth2 & Hst2 & Hcl2).
    by rewrite Hst2.
Qed.

Lemma page_run_synced stringify es : ∀ p,
  synced stringify p → synced stringify (page_run stringify p es).
Proof.
  induction es as [|e es IH]; intros p Hp; [done|].
  unfold page_run in *; simpl. by apply IH, page_dispatch_synced.
Qed.

Lemma page_run_state stringify es : ∀ p,
  state (component (page_run stringify p es)) = run (state (component p)) es.
Proof.
  induction es as [|e es IH]; intros p; [done|].
  unfold page_run, run in *; simpl. rewrite IH.
  change (component (page_dispatch stringify p e))
    with (dispatch (component p) e).
  by rewrite dispatch_state.
Qed.

Lemma page_run_storage stringify s0 b0 es :
  let p := page_run stringify (page_mount stringify s0 b0) es in
  localStorage (browser p) !! STORAGE_KEY
    = Some (stringify (todos (run s0 es))) ∧
  localStorage (browser p) !! THEME_KEY
    = Some (theme_name (theme (run s0 es))).
Proof.
  intros p.
  destruct (page_run_synced stringify es _ (page_mount_synced stringify s0 b0))
    as (Hst & Hth & _).
  fold p in Hst, Hth. unfold p in *.
  rewrite page_run_state in Hst, Hth. by split.
Qed.

(** X11. The browser always holds the current state: after the first
    render and any sequence of events, the storage has the serialised
    current tasks under the items key and the name of the current theme
    under the theme key, and the root element carries the class [dark]
    exactly when the theme is [dark], although each effect runs only
    when its own dependency changed. *)
Theorem effects_keep_browser_synced
    (stringify : list Todo → jsstring)
    (s0 : AppState) (b0 : Browser) (es : list Event) :
  let p := page_run stringify (page_mount stringify s0 b0) es in
  state (component p) = run s0 es ∧
  localStorage (browser p) !! STORAGE_KEY
    = Some (stringify (todos (run s0 es))) ∧
  localStorage (browser p) !! THEME_KEY
    = Some (theme_name (theme (run s0 es))) ∧
  (lit "dark" ∈ classList (browser p) ↔ theme (run s0 es) = dark).
Proof.
  intros p.
  assert (Hstate : state (component p) = run s0 es)
    by apply page_run_state.
  destruct (page_run_synced stringify es _ (page_mount_synced stringify s0 b0))
    as (Hst & Hth & Hcl).
  fold p in Hst, Hth, Hcl. rewrite Hstate in Hst, Hth, Hcl. by split_and!.
Qed.

Lemma other_classes_add b :
  other_classes (classList_add (lit "dark") b) = other_classes b.
Proof.
  unfold other_classes, classList_add; simpl. case_bool_decide; [done|].
  rewrite List.filter_app. simpl. apply app_nil_r.
Qed.

Lemma other_classes_remove b :
  other_classes (classList_remove (lit "dark") b) = other_classes b.
Proof.
  unfold other_classes, classList_remove; simpl.
  apply array_filter_all, array_filter_Forall.
Qed.

Lemma run_effects_frame stringify prev i b :
  (∀ k, k ≠ STORAGE_KEY → k ≠ THEME_KEY →
     localStorage (run_effects stringify prev i b) !! k = localStorage b !! k) ∧
  other_classes (run_effects stringify prev i b) = other_classes b.
Proof.
  unfold run_effects, useEffect.
  set (b1 := if decide (fst <$> prev = Some (todos_ref i)) then b
             else persist_todos stringify (state i) b).
  assert (Hb1 : (∀ k, k ≠ STORAGE_KEY →
                   localStorage b1 !! k = localStorage b !! k)
                ∧ classList b1 = classList b).
  { unfold b1. case_decide; [done|]. unfold persist_todos, setItem; simpl.
    split; [|done]. intros k Hk. by rewrite lookup_insert_ne. }
  destruct Hb1 as [Hst1 Hcl1].
  case_decide.
  - split; [auto|]. unfold other_classes. by rewrite Hcl1.
  - unfold apply_theme, setItem. split.
    + intros k Hk1 Hk2. simpl. rewrite lookup_insert_ne by done.
      rewrite <- (Hst1 k Hk1). by destruct (theme (state i)).
    + transitivity (other_classes b1);
        [|unfold other_classes; by rewrite Hcl1].
      destruct (theme (state i)).
      * apply (other_classes_add b1).
      * apply (other_classes_remove b1).
Qed.

(** X12. The effects touch nothing but their own: every storage key
    other than the two of the application keeps its value, and the
    classes of the root element other than [dark] stay as they were, in
    their order. *)
Theorem effects_leave_the_rest
    (stringify : list Todo → jsstring)
    (s0 : AppState) (b0 : Browser) (es : list Event) :
  let p := page_run stringify (page_mount stringify s0 b0) es in
  (∀ k, k ≠ STORAGE_KEY → k ≠ THEME_KEY →
     localStorage (browser p) !! k = localStorage b0 !! k) ∧
  other_classes (browser p) = other_classes b0.
Proof.
  simpl.
  assert (Hrun : ∀ es p,
    (∀ k, k ≠ STORAGE_KEY → k ≠ THEME_KEY →
       localStorage (browser (page_run stringify p es)) !! k
         = localStorage (browser p) !! k) ∧
    other_classes (browser (page_run stringify p es))
      = other_classes (browser p)).
  { clear. induction es as [|e es IH]; intros p; [done|].
    unfold page_run in *; simpl.
    destruct (IH (page_dispatch stringify p e)) as [Hst Hcl].
    destruct (run_effects_frame stringify
                (Some (todos_ref (component p), theme (state (component p))))
                (dispatch (component p) e) (browser p)) as [Hst' Hcl'].
    split.
    - intros k Hk1 Hk2. rewrite Hst by done. by apply Hst'.
    - by rewrite Hcl. }
  destruct (Hrun es (page_mount stringify s0 b0)) as [Hst Hcl].
  destruct (run_effects_frame stringify None (mount s0) b0) as [Hst' Hcl'].
  split.
  - intros k Hk1 Hk2. rewrite Hst by done. by apply Hst'.
  - by rewrite Hcl.
Qed.

Lemma effects_leave_the_rest_witness :
  localStorage
    (browser (page_run sample_stringify
                (page_mount sample_stringify (mkApp [milk] [] all light)
                   (mkBrowser {[ lit "lang" := lit "en" ]} [lit "app"; lit "dark"]))
                [ClickToggle (lit "a1"); ClickTheme]))
    !! lit "lang" = Some (lit "en").
Proof.
  destruct (effects_leave_the_rest sample_stringify
              (mkApp [milk] [] all light)
              (mkBrowser {[ lit "lang" := lit "en" ]} [lit "app"; lit "dark"])
              [ClickToggle (lit "a1"); ClickTheme]) as [Hkeys _].
  rewrite Hkeys; [|by vm_compute..]. simpl.
  apply lookup_singleton_eq.
Defined.

(** X13. A reload finds the theme of the running page: whatever the
    ambient preference says, [loadInitialTheme] run against the storage
    the effects wrote returns the current theme. *)
Theorem reload_restores_theme
    (stringify : list Todo → jsstring)
    (s0 : AppState) (b0 : Browser) (es : list Event)
    (media : option (jsstring → bool)) (parse : jsstring → completion value) :
  let p := page_run stringify (page_mount stringify s0 b0) es in
  loadInitialTheme (reload_host (browser p) media parse)
    = Normal (theme (run s0 es)).
Proof.
  simpl.
  destruct (page_run_storage stringify s0 b0 es) as [_ Hth].
  unfold loadInitialTheme, reload_host; simpl. rewrite Hth.
  by destruct (theme (run s0 es)).
Qed.

Lemma asTodo_todo_value t : asTodo (todo_value t) = Some t.
Proof. by destruct t. Qed.

Lemma asTodo_all ts : mapM asTodo (List.map todo_value ts) = Some ts.
Proof.
  apply mapM_Some. induction ts as [|t ts IH]; simpl; constructor; [|done].
  apply asTodo_todo_value.
Qed.

(** X14. A reload finds the tasks of the running page, as far as the
    host's JSON functions allow: the loader hands to [JSON.parse] the
    very text the effect stored, so when that text is not empty and
    parses back to the records of the current tasks, the loader returns
    those records, and they read back as the current tasks. *)
Theorem reload_restores_todos
    (stringify : list Todo → jsstring)
    (s0 : AppState) (b0 : Browser) (es : list Event)
    (media : option (jsstring → bool)) (parse : jsstring → completion value) :
  let p := page_run stringify (page_mount stringify s0 b0) es in
  let ts := todos (run s0 es) in
  stringify ts ≠ [] →
  parse (stringify ts) = Normal (VArr (List.map todo_value ts)) →
  loadInitialTodos (reload_host (browser p) media parse)
    = Normal (List.map todo_value ts) ∧
  mapM asTodo (List.map todo_value ts) = Some ts.
Proof.
  intros p ts Hne Hparse. split; [|apply asTodo_all].
  destruct (page_run_storage stringify s0 b0 es) as [Hst _].
  apply (loadInitialTodos_array (reload_host (browser p) media parse)
           _ (stringify ts) _ eq_refl);
    [|exact Hne|exact Hparse].
  change (Normal (localStorage (browser p) !! STORAGE_KEY)
          = Normal (Some (stringify ts))).
  unfold p, ts. by rewrite Hst.
Qed.

Lemma reload_restores_todos_witness :
  loadInitialTodos
    (reload_host
       (browser (page_run sample_stringify
                   (page_mount sample_stringify
                      (mkApp [milk] (lit " Buy eggs ") all dark)
                      (mkBrowser ∅ []))
                   [Submit (lit "b2") 2000; ClickToggle (lit "b2")]))
       None
       (sample_parse [(sample_stringify [eggs; milk],
                       VArr [todo_value eggs; todo_value milk])]))
    = Normal [todo_value eggs; todo_value milk] ∧
  mapM asTodo [todo_value eggs; todo_value milk] = Some [eggs; milk].
Proof.
  apply (reload_restores_todos sample_stringify
           (mkApp [milk] (lit " Buy eggs ") all dark) (mkBrowser ∅ [])
           [Submit (lit "b2") 2000; ClickToggle (lit "b2")] None
           (sample_parse [(sample_stringify [eggs; milk],
                           VArr [todo_value eggs; todo_value milk])])).
  - by vm_compute.
  - by vm_compute.
Defined.

(** X15. Typing in the box and choosing a filter write nothing: after
    such an event the storage and the class list are the ones of the
    render before. *)
Theorem quiet_events_write_nothing
    (stringify : list Todo → jsstring) (p : Page)
    (v : jsstring) (key : Filter) :
  browser (page_dispatch stringify p (Change v)) = browser p ∧
  browser (page_dispatch stringify p (ClickFilter key)) = browser p.
Proof.
  unfold page_dispatch, run_effects, useEffect; simpl.
  rewrite !decide_True by done. done.
Qed.

(** * Further properties of the loaders *)

(** X16. [loadInitialTheme] has no guard around the storage read: it
    throws exactly when there is a window and reading the theme key
    throws, and then it throws that same exception. *)
Theorem loadInitialTheme_throws_iff (h : Host) (e : exn) :
  loadInitialTheme h = Throw e ↔
  ∃ w, window h = Some w ∧ localStorage_getItem w THEME_KEY = Throw e.
Proof.
  unfold loadInitialTheme. split.
  - destruct (window h) as [w|]; [|done].
    destruct (localStorage_getItem w THEME_KEY) as [stored|e'] eqn:Hget; simpl.
    + repeat case_decide; try done. by destruct (prefersDark w) as [[]|].
    + intros [= ->]. by exists w.
  - intros (w & -> & ->). done.
Qed.

(** X17. The loader returns a non-empty list in one case only: the
    stored text is not empty and [JSON.parse] turns it into an array,
    which is then returned element for element, unchecked. *)
Theorem loadInitialTodos_nonempty_iff (h : Host) (items : list value) :
  items ≠ [] →
  loadInitialTodos h = Normal items ↔
  ∃ w raw, window h = Some w ∧
    localStorage_getItem w STORAGE_KEY = Normal (Some raw) ∧
    raw ≠ [] ∧ JSON_parse h raw = Normal (VArr items).
Proof.
  intros Hne. split.
  - unfold loadInitialTodos. destruct (window h) as [w|]; [|congruence].
    destruct (localStorage_getItem w STORAGE_KEY) as [[raw|]|e] eqn:Hget;
      simpl; try congruence.
    destruct raw as [|c raw]; simpl; [congruence|].
    destruct (JSON_parse h (c :: raw)) as [v|e] eqn:Hparse; simpl;
      [|congruence].
    destruct v; intros [= <-]; try done.
    exists w, (c :: raw). by split_and!.
  - intros (w & raw & Hw & Hget & Hraw & Hparse).
    by eapply loadInitialTodos_array.
Qed.

Lemma loadInitialTodos_nonempty_iff_witness :
  loadInitialTodos twice_host
    = Normal [todo_value milk; todo_value milk_again].
Proof.
  apply loadInitialTodos_nonempty_iff; [done|].
  exists (sample_window [(STORAGE_KEY, twice_text)] None), twice_text.
  split_and!; [reflexivity|reflexivity|by vm_compute|reflexivity].
Defined.

(** * The theme button *)

(** X18. The theme button switches between the two themes: one click
    always changes the theme and nothing else, two clicks give the
    state back. *)
Theorem handleThemeToggle_switches (s : AppState) :
  let s' := step s ClickTheme in
  theme s' ≠ theme s ∧
  todos s' = todos s ∧ input s' = input s ∧ filter s' = filter s ∧
  step s' ClickTheme = s.
Proof.
  destruct s as [ts inp fl th]. unfold step; simpl.
  split_and!; try done; by destruct th.
Qed.

(** * Rows of the page *)

Lemma filteredTodos_shown_in_list s t : t ∈ filteredTodos s → t ∈ todos s.
Proof.
  unfold filteredTodos. destruct (filter s); [done|..];
    intros Hin; apply list_elem_of_In, filter_In in Hin as [Hin _];
    by apply list_elem_of_In.
Qed.

(** X19. The buttons of a shown row always act: the row's task is in
    the list, so its delete button makes the list shorter and its
    toggle button changes the list. *)
Theorem row_buttons_act (s : AppState) (t : Todo) :
  t ∈ filteredTodos s →
  (length (todos (step s (ClickDelete (id t)))) < length (todos s))%nat ∧
  todos (step s (ClickToggle (id t))) ≠ todos s.
Proof.
  intros Hshown. apply filteredTodos_shown_in_list in Hshown.
  unfold step; simpl. split.
  - pose proof (array_filter_length (λ todo, bool_decide (id todo = id t))
                  (todos s)) as Hlen.
    assert (Hhit : (0 < length (List.filter
                       (λ todo, bool_decide (id todo = id t)) (todos s)))%nat).
    { destruct (List.filter _ (todos s)) as [|x l] eqn:Hf; [|simpl; lia].
      assert (Hin : In t (List.filter
                (λ todo, bool_decide (id todo = id t)) (todos s))).
      { apply filter_In. split; [by apply list_elem_of_In|].
        by rewrite bool_decide_eq_true_2. }
      by rewrite Hf in Hin. }
    lia.
  - intros Heq.
    induction (todos s) as [|t0 ts IH]; [by apply not_elem_of_nil in Hshown|].
    simpl in Heq. injection Heq as Hhead Htail.
    apply elem_of_cons in Hshown as [->|Hin]; [|by apply IH].
    rewrite decide_True in Hhead by done.
    apply (f_equal done) in Hhead. simpl in Hhead. by destruct (done t0).
Qed.

Lemma row_buttons_act_witness :
  (length (todos (step (mkApp [milk; eggs; bread] [] active dark)
                    (ClickDelete (lit "c3")))) < 3)%nat ∧
  todos (step (mkApp [milk; eggs; bread] [] active dark)
           (ClickToggle (lit "c3")))
    ≠ [milk; eggs; bread].
Proof.
  apply (row_buttons_act (mkApp [milk; eggs; bread] [] active dark) bread).
  apply list_elem_of_In. vm_compute. auto.
Defined.

(** X20. Adding a task and deleting it again gives the list back,
    provided the generated id is one no task of the list carries. *)
Theorem add_then_delete (s : AppState) (uuid : jsstring) (now : Z) :
  uuid ∉ List.map id (todos s) →
  todos (run s [Submit uuid now; ClickDelete uuid]) = todos s.
Proof.
  intros Hfresh.
  assert (Hkeep : List.filter (λ todo, negb (bool_decide (id todo = uuid)))
                    (todos s) = todos s).
  { apply array_filter_all, Forall_forall. intros t Ht. simpl.
    rewrite bool_decide_eq_false_2; [done|]. intros Heq. apply Hfresh.
    rewrite <- Heq. apply list_elem_of_In, in_map. by apply list_elem_of_In. }
  unfold run, step, handler, handleAddTodo; simpl.
  destruct (trim (input s)); simpl; [exact Hkeep|].
  rewrite bool_decide_eq_true_2 by done. exact Hkeep.
Qed.

Lemma add_then_delete_witness :
  todos (run (mkApp [milk; eggs] (lit "Call mum") all dark)
           [Submit (lit "u7") 5000; ClickDelete (lit "u7")])
    = [milk; eggs].
Proof.
  apply (add_then_delete (mkApp [milk; eggs] (lit "Call mum") all dark)).
  rewrite list_elem_of_In. vm_compute. intuition discriminate.
Defined.
